(** * GTHC_HK: tropospheric height correction for Hong Kong

    A shallow embedding of [src/GTHC_HK.c] and the properties of its three
    functions: [is_in_hongkong], the seasonal sinusoids [func_sinZTD] and
    [func_sinZWD], and the correction routine [GTHC_HK].

    The C code computes on [double].  The embedding is written once, over
    a structure [arith] that interprets [double] and the operations the
    code applies to it, and is read at two instances:

    - [Rarith]: exact real arithmetic, with the libm functions read as the
      mathematical [exp], [cos], [sin] and [M_PI] as the number pi.  The
      formulas of the model are statements about real numbers, and the
      analytic properties (identity, monotonicity, positivity) are proved
      here.
    - [binary64]: IEEE-754 binary64 as the kernel's primitive floats, with
      the three libm functions left as parameters.  Comparisons, decimal
      literals and control flow evaluate here; the region test and the
      identity at equal heights are proved here too, from the
      specification of the primitive operations.

    Whatever is proved for an arbitrary [arith] holds at both. *)

From Stdlib Require Import ZArith QArith Reals Lra Lia Bool List String Ascii.
From Stdlib Require Import Floats Uint63.
Import ListNotations.

(** ** The interpretation of [double] *)

Record arith : Type := Arith {
  num :> Type;
  d_of_int : Z -> num;             (* the conversion int -> double *)
  d_lit : Q -> num;                (* a decimal literal of the source *)
  d_pi : num;                      (* M_PI *)
  d_add : num -> num -> num;
  d_sub : num -> num -> num;
  d_mul : num -> num -> num;
  d_div : num -> num -> num;
  d_neg : num -> num;
  d_le : num -> num -> bool;       (* x <= y *)
  d_exp : num -> num;
  d_cos : num -> num;
  d_sin : num -> num
}.

Arguments d_of_int {a} _.
Arguments d_lit {a} _%_Q.
Arguments d_pi {a}.
Arguments d_add {a} _ _.
Arguments d_sub {a} _ _.
Arguments d_mul {a} _ _.
Arguments d_div {a} _ _.
Arguments d_neg {a} _.
Arguments d_le {a} _ _.
Arguments d_exp {a} _.
Arguments d_cos {a} _.
Arguments d_sin {a} _.

Declare Scope dbl_scope.
Delimit Scope dbl_scope with dbl.
Notation "x + y" := (d_add x y) : dbl_scope.
Notation "x - y" := (d_sub x y) : dbl_scope.
Notation "x * y" := (d_mul x y) : dbl_scope.
Notation "x / y" := (d_div x y) : dbl_scope.
Notation "- x" := (d_neg x) : dbl_scope.
Notation "x <=? y" := (d_le x y) : dbl_scope.
(* C's [x >= y] is [y <= x], also on NaN, where both are false. *)
Notation "x >=? y" := (d_le y x) : dbl_scope.

(** ** Arrays of the source

    [double a[3]] and [double a[5]], read and written at constant indices
    only. *)

Record array3 (T : Type) : Type := Array3 { at0 : T; at1 : T; at2 : T }.
Arguments Array3 {T} _ _ _.
Arguments at0 {T} _.
Arguments at1 {T} _.
Arguments at2 {T} _.

Record array5 (T : Type) : Type :=
  Array5 { el0 : T; el1 : T; el2 : T; el3 : T; el4 : T }.
Arguments Array5 {T} _ _ _ _ _.
Arguments el0 {T} _.
Arguments el1 {T} _.
Arguments el2 {T} _.
Arguments el3 {T} _.
Arguments el4 {T} _.

Definition set0 {T} (x : T) (a : array3 T) : array3 T := Array3 x (at1 a) (at2 a).
Definition set1 {T} (x : T) (a : array3 T) : array3 T := Array3 (at0 a) x (at2 a).
Definition set2 {T} (x : T) (a : array3 T) : array3 T := Array3 (at0 a) (at1 a) x.

(** ** What a call can change

    [GTHC_HK] writes to the caller's output array [UserTrop] and to the
    error stream; nothing else is shared with the caller.  Every input is
    copied into a local before the first write to [UserTrop], so a caller
    that passes the same array as input and output sees no difference. *)

Record world (T : Type) : Type := World {
  UserTrop : array3 T;
  stderr : list string
}.
Arguments World {T} _ _.
Arguments UserTrop {T} _.
Arguments stderr {T} _.

Definition fprintf_stderr {T} (msg : string) (w : world T) : world T :=
  World (UserTrop w) (stderr w ++ [msg]).

Definition store_UserTrop {T} (f : array3 T -> array3 T) (w : world T) : world T :=
  World (f (UserTrop w)) (stderr w).

Definition LF : string := String (ascii_of_nat 10) EmptyString.

Definition msg_DOY : string :=
  ("GTHC_HK: DOY must be between 1 and 366" ++ LF)%string.

Definition msg_region : string :=
  ("GTHC_HK: Station coordinates outside Hong Kong region" ++ LF)%string.

(** ** The program *)

Section Program.

Context {D : arith}.
Local Open Scope dbl_scope.

(* Hong Kong geographical boundaries *)
Definition HK_LAT_MIN : D := d_lit 22.1.
Definition HK_LAT_MAX : D := d_lit 22.6.
Definition HK_LON_MIN : D := d_lit 113.8.
Definition HK_LON_MAX : D := d_lit 114.5.

Definition is_in_hongkong (lat lon : D) : bool :=
  ((lat >=? HK_LAT_MIN) && (lat <=? HK_LAT_MAX)) &&
  ((lon >=? HK_LON_MIN) && (lon <=? HK_LON_MAX)).

(* The int literals 2 and 4 are converted to double by the product. *)
Definition func_sinZTD (a : array3 D) (t : D) : D :=
  at0 a * d_cos (d_of_int 2 * d_pi * t) + at1 a * d_sin (d_of_int 2 * d_pi * t) + at2 a.

Definition func_sinZWD (a : array5 D) (t : D) : D :=
  el0 a * d_cos (d_of_int 2 * d_pi * t) + el1 a * d_cos (d_of_int 4 * d_pi * t) +
  el2 a * d_sin (d_of_int 2 * d_pi * t) + el3 a * d_cos (d_of_int 4 * d_pi * t) + el4 a.

(* Model coefficients *)
Definition A_ZTD : array3 D :=
  Array3 (d_lit 336.744129380450) (d_lit 40.0468935232165) (d_lit 7222.97084384999).

Definition A_ZWD : array5 D :=
  Array5 (d_lit (-16.7865051683731)) (d_lit 36218.6610049341)
         (d_lit (-130.895834349628)) (d_lit (-36297.5776200211))
         (d_lit 3253.60038161059).

(* ZHD scale height (constant) *)
Definition beta_ZHD : D := d_lit 8431.2.

(* The seasonal correction parameters [(beta_ZTD, beta_ZWD)]: the
   if/else on [YorN] of the source. *)
Definition seasonal_parameters (DOY : Z) (YorN : bool) : D * D :=
  if YorN then
    let doy_normalized := d_of_int DOY / d_lit 365.25 in
    (func_sinZTD A_ZTD doy_normalized, func_sinZWD A_ZWD doy_normalized)
  else
    (d_lit 7228.8, d_lit 3254.1).

(* [DOY] is a C int; the two comparisons and the conversion to double are
   exact on every int, so it is read as an integer. The result is the
   returned int and the world after the call. *)
Definition GTHC_HK (BaseTrop BaseCoor UserCoor : array3 D) (DOY : Z)
    (YorN : bool) (w : world D) : Z * world D :=
  if ((DOY <? 1) || (DOY >? 366))%Z then
    (-1, fprintf_stderr msg_DOY w)%Z
  else
    let ZHD_base := at0 BaseTrop in
    let ZWD_base := at1 BaseTrop in
    let ZTD_base := at2 BaseTrop in
    let Lat_base := at0 BaseCoor in
    let Lon_base := at1 BaseCoor in
    let Hgt_base := at2 BaseCoor in
    let Lat_user := at0 UserCoor in
    let Lon_user := at1 UserCoor in
    let Hgt_user := at2 UserCoor in
    if negb (is_in_hongkong Lat_base Lon_base) || negb (is_in_hongkong Lat_user Lon_user) then
      (-1, fprintf_stderr msg_region w)%Z
    else
      let hgt_diff := Hgt_user - Hgt_base in
      let '(beta_ZTD, beta_ZWD) := seasonal_parameters DOY YorN in
      let w := store_UserTrop (set2 (ZTD_base / d_exp (- hgt_diff / beta_ZTD))) w in
      let w := store_UserTrop (set1 (ZWD_base / d_exp (- hgt_diff / beta_ZWD))) w in
      let w := store_UserTrop (set0 (ZHD_base / d_exp (- hgt_diff / beta_ZHD))) w in
      (0%Z, w).

End Program.

(** ** Exact real arithmetic *)

Definition Rle_bool (x y : R) : bool := if Rle_dec x y then true else false.

Definition Rarith : arith := {|
  num := R;
  d_of_int := IZR;
  d_lit := Q2R;
  d_pi := PI;
  d_add := Rplus;
  d_sub := Rminus;
  d_mul := Rmult;
  d_div := Rdiv;
  d_neg := Ropp;
  d_le := Rle_bool;
  d_exp := exp;
  d_cos := cos;
  d_sin := sin
|}.

(** ** IEEE-754 binary64 *)

Definition float_of_Z (z : Z) : float :=
  if (z <? 0)%Z then PrimFloat.opp (PrimFloat.of_uint63 (Uint63.of_Z (- z)))
  else PrimFloat.of_uint63 (Uint63.of_Z z).

(* A decimal literal [n / 10^k] whose digits [n] and scale [10^k] are both
   binary64 numbers is their correctly rounded quotient. *)
Definition float_of_decimal (q : Q) : float :=
  PrimFloat.div (float_of_Z (Qnum q)) (float_of_Z (Zpos (Qden q))).

(* 3.14159265358979323846 *)
Definition M_PI : float := 0x1.921fb54442d18p+1%float.

Definition binary64 (libm_exp libm_cos libm_sin : float -> float) : arith := {|
  num := float;
  d_of_int := float_of_Z;
  d_lit := float_of_decimal;
  d_pi := M_PI;
  d_add := PrimFloat.add;
  d_sub := PrimFloat.sub;
  d_mul := PrimFloat.mul;
  d_div := PrimFloat.div;
  d_neg := PrimFloat.opp;
  d_le := PrimFloat.leb;
  d_exp := libm_exp;
  d_cos := libm_cos;
  d_sin := libm_sin
|}.

(** ** The demonstration call of [main] *)

Definition demo_BaseTrop {D : arith} : array3 D :=
  Array3 (d_of_int 2200) (d_of_int 150) (d_of_int 2350).
Definition demo_BaseCoor {D : arith} : array3 D :=
  Array3 (d_lit 22.3) (d_lit 114.2) (d_of_int 50).
Definition demo_UserCoor {D : arith} : array3 D :=
  Array3 (d_lit 22.35) (d_lit 114.15) (d_of_int 200).

(* The call [main] makes, and returns the result of. [main] passes an
   uninitialised [UserTrop]: its content is whatever the world holds. *)
Definition demo_call {D : arith} (w : world D) : Z * world D :=
  GTHC_HK demo_BaseTrop demo_BaseCoor demo_UserCoor 150 true w.

(* [main]: the call above with DOY = 150 and the seasonal flag on; on
   success four lines on the standard output, the three delays rendered
   by printf's "%.2f", which stays a parameter like libm; the exit status
   is the result of the call. The value is the exit status, the world
   after the call, and the standard output. *)
Definition main {D : arith} (printf_2f : D -> string) (w : world D)
    (stdout : list string) : Z * world D * list string :=
  let BaseTrop := Array3 (d_of_int 2200) (d_of_int 150) (d_of_int 2350) in
  let BaseCoor := Array3 (d_lit 22.3) (d_lit 114.2) (d_of_int 50) in
  let UserCoor := Array3 (d_lit 22.35) (d_lit 114.15) (d_of_int 200) in
  let DOY := 150%Z in
  let '(result, w) := GTHC_HK BaseTrop BaseCoor UserCoor DOY true w in
  if (result =? 0)%Z then
    (result, w,
     stdout ++
     [("Corrected tropospheric delays:" ++ LF)%string;
      ("ZHD = " ++ printf_2f (at0 (UserTrop w)) ++ " mm" ++ LF)%string;
      ("ZWD = " ++ printf_2f (at1 (UserTrop w)) ++ " mm" ++ LF)%string;
      ("ZTD = " ++ printf_2f (at2 (UserTrop w)) ++ " mm" ++ LF)%string])
  else
    (result, w, stdout).

(** ** Vocabulary of the specification

    The specification names two kinds of failure.  The C function reports
    both by the return value -1; what tells them apart is the line it
    prints on the error stream. *)

Inductive ErrorKind : Type := InvalidDayOfYear | OutOfRegion.

Definition diagnostic (k : ErrorKind) : string :=
  match k with
  | InvalidDayOfYear => msg_DOY
  | OutOfRegion => msg_region
  end.

(* The call that ran from world [w] to the result [r] failed with kind [k]. *)
Definition fails_with {T} (k : ErrorKind) (w : world T) (r : Z * world T) : Prop :=
  fst r = (-1)%Z /\ stderr (snd r) = stderr w ++ [diagnostic k].

Definition succeeds {T} (w : world T) (r : Z * world T) : Prop :=
  fst r = 0%Z /\ stderr (snd r) = stderr w.

Definition valid_DOY (DOY : Z) : Prop := (1 <= DOY <= 366)%Z.

Definition in_region {D : arith} (Coor : array3 D) : bool :=
  is_in_hongkong (at0 Coor) (at1 Coor).

(** ** The value of a binary64 number

    [B2R] reads a finite binary64 number as the real it stands for (0 for
    the zeros, and for NaN and the infinities, which stand for none). *)

Definition SF2R (f : spec_float) : R :=
  match f with
  | S754_finite s m e => ((if s then -1 else 1) * IZR (Zpos m) * powerRZ 2 e)%R
  | _ => 0%R
  end.
Definition B2R (x : float) : R := SF2R (Prim2SF x).

(* The value in units of 2^-1074, the least positive binary64 number. *)
Definition SF_scaled (f : spec_float) : Z :=
  match f with
  | S754_finite s m e => cond_Zopp s (Zpos m * 2 ^ (e + 1074))
  | _ => 0
  end.

Definition SF_is_finite (f : spec_float) : bool :=
  match f with
  | S754_zero _ | S754_finite _ _ _ => true
  | _ => false
  end.

(* A binary64 number other than the two zeros (infinities included). *)
Definition nonzero_number (x : float) : bool :=
  negb (PrimFloat.is_nan x) && negb (PrimFloat.is_zero x).

(** * Properties *)

(** ** Control flow of [GTHC_HK], for every interpretation of [double] *)

Section ControlFlow.

Context {D : arith}.
Implicit Types (BaseTrop BaseCoor UserCoor : array3 D) (w : world D).

Lemma msg_DOY_neq_region : msg_DOY <> msg_region.
Proof. discriminate. Qed.

Lemma diagnostic_inj (k k' : ErrorKind) : diagnostic k = diagnostic k' -> k = k'.
Proof.
  destruct k, k'; cbn; intros H; try reflexivity;
    exfalso; [ apply msg_DOY_neq_region | apply msg_DOY_neq_region; symmetry ]; exact H.
Qed.

Lemma DOY_test_true (DOY : Z) :
  ((DOY <? 1) || (DOY >? 366))%Z = true <-> (DOY < 1 \/ DOY > 366)%Z.
Proof. rewrite orb_true_iff, Z.ltb_lt, Z.gtb_gt. tauto. Qed.

Lemma DOY_test_false (DOY : Z) :
  ((DOY <? 1) || (DOY >? 366))%Z = false <-> valid_DOY DOY.
Proof.
  unfold valid_DOY. rewrite orb_false_iff, Z.ltb_ge, Z.gtb_ltb, Z.ltb_ge. tauto.
Qed.

(* The three ways through the function. *)

Lemma GTHC_HK_bad_DOY BaseTrop BaseCoor UserCoor DOY YorN w :
  (DOY < 1 \/ DOY > 366)%Z ->
  GTHC_HK BaseTrop BaseCoor UserCoor DOY YorN w = ((-1)%Z, fprintf_stderr msg_DOY w).
Proof.
  intros H. unfold GTHC_HK. apply DOY_test_true in H. rewrite H. reflexivity.
Qed.

Lemma GTHC_HK_bad_region BaseTrop BaseCoor UserCoor DOY YorN w :
  valid_DOY DOY ->
  in_region BaseCoor = false \/ in_region UserCoor = false ->
  GTHC_HK BaseTrop BaseCoor UserCoor DOY YorN w = ((-1)%Z, fprintf_stderr msg_region w).
Proof.
  intros Hd Hr. unfold GTHC_HK. apply DOY_test_false in Hd. rewrite Hd.
  unfold in_region in Hr.
  destruct Hr as [-> | ->]; cbn [negb orb]; [ | rewrite orb_true_r ]; reflexivity.
Qed.

Lemma GTHC_HK_ok BaseTrop BaseCoor UserCoor DOY YorN w :
  valid_DOY DOY ->
  in_region BaseCoor = true -> in_region UserCoor = true ->
  let hgt_diff := (at2 UserCoor - at2 BaseCoor)%dbl in
  let beta := seasonal_parameters DOY YorN in
  GTHC_HK BaseTrop BaseCoor UserCoor DOY YorN w =
  (0%Z,
   World (Array3 (at0 BaseTrop / d_exp (- hgt_diff / beta_ZHD))%dbl
                 (at1 BaseTrop / d_exp (- hgt_diff / snd beta))%dbl
                 (at2 BaseTrop / d_exp (- hgt_diff / fst beta))%dbl)
         (stderr w)).
Proof.
  intros Hd Hb Hu hgt_diff beta. unfold GTHC_HK.
  apply DOY_test_false in Hd. rewrite Hd.
  unfold in_region in Hb, Hu. rewrite Hb, Hu. cbn [negb orb].
  subst beta hgt_diff. destruct (seasonal_parameters DOY YorN) as [bt bw].
  reflexivity.
Qed.

(* Every call takes one of them. *)
Lemma GTHC_HK_cases BaseCoor UserCoor (DOY : Z) :
  ((DOY < 1 \/ DOY > 366)%Z) \/
  (valid_DOY DOY /\ (in_region BaseCoor = false \/ in_region UserCoor = false)) \/
  (valid_DOY DOY /\ in_region BaseCoor = true /\ in_region UserCoor = true).
Proof.
  unfold valid_DOY.
  destruct (in_region BaseCoor), (in_region UserCoor);
    destruct (Z.ltb_spec DOY 1); destruct (Z.ltb_spec 366 DOY); intuition lia.
Qed.

End ControlFlow.

(** ** The region test *)

Lemma Rle_bool_true (x y : R) : Rle_bool x y = true <-> (x <= y)%R.
Proof.
  unfold Rle_bool. destruct (Rle_dec x y); split; intros; try easy.
Qed.

Lemma is_in_hongkong_real (lat lon : R) :
  is_in_hongkong (D := Rarith) lat lon = true <->
  (22.1 <= lat <= 22.6 /\ 113.8 <= lon <= 114.5)%R.
Proof.
  unfold is_in_hongkong, HK_LAT_MIN, HK_LAT_MAX, HK_LON_MIN, HK_LON_MAX.
  cbn [d_le d_lit Rarith].
  rewrite !andb_true_iff, !Rle_bool_true. tauto.
Qed.

Lemma in_region_iff (Coor : array3 Rarith) :
  in_region Coor = true <->
  (22.1 <= at0 Coor <= 22.6 /\ 113.8 <= at1 Coor <= 114.5)%R.
Proof. apply is_in_hongkong_real. Qed.


Lemma origin_not_in_region (h : R) :
  in_region (D := Rarith) (Array3 0%R 0%R h) = false.
Proof.
  apply not_true_is_false. rewrite in_region_iff. cbn. lra.
Qed.

Lemma demo_BaseCoor_in_region : in_region (D := Rarith) demo_BaseCoor = true.
Proof. apply in_region_iff. cbn. lra. Qed.

Lemma demo_UserCoor_in_region : in_region (D := Rarith) demo_UserCoor = true.
Proof. apply in_region_iff. cbn. lra. Qed.

(** The four edges of the rectangle belong to it, over the reals ... *)
Lemma is_in_hongkong_edges :
  is_in_hongkong (D := Rarith) 22.1%R 113.8%R = true /\
  is_in_hongkong (D := Rarith) 22.6%R 114.5%R = true /\
  is_in_hongkong (D := Rarith) 22.1%R 114.5%R = true /\
  is_in_hongkong (D := Rarith) 22.6%R 113.8%R = true.
Proof. rewrite !is_in_hongkong_real. lra. Qed.

(** ... and in binary64, where the literal of the source and the literal of
    the caller round to the same number; the neighbouring floats outside
    are rejected, and so is NaN. *)
Lemma is_in_hongkong_edges_binary64 (e c s : float -> float) :
  let lit := d_lit (a := binary64 e c s) in
  let inside := is_in_hongkong (D := binary64 e c s) in
  inside (lit 22.1) (lit 113.8) = true /\
  inside (lit 22.6) (lit 114.5) = true /\
  inside (lit 22.1) (lit 114.5) = true /\
  inside (lit 22.6) (lit 113.8) = true /\
  inside (next_down (lit 22.1)) (lit 113.8) = false /\
  inside (next_up (lit 22.6)) (lit 113.8) = false /\
  inside (lit 22.1) (next_down (lit 113.8)) = false /\
  inside (lit 22.1) (next_up (lit 114.5)) = false /\
  inside nan (lit 113.8) = false /\
  inside (lit 22.1) nan = false /\
  inside (float_of_Z 0) (float_of_Z 0) = false.
Proof. vm_compute. repeat split; reflexivity. Qed.

(** ** Claims on the control flow *)

Lemma app_singleton_inj {A} (l : list A) (a b : A) : l ++ [a] = l ++ [b] -> a = b.
Proof. intros H. apply app_inv_head in H. now injection H. Qed.

(* A failing call has one kind. *)
Lemma fails_with_unique {T} (k k' : ErrorKind) (w : world T) (r : Z * world T) :
  fails_with k w r -> fails_with k' w r -> k = k'.
Proof.
  intros [_ H] [_ H']. rewrite H in H'.
  apply diagnostic_inj. now apply app_singleton_inj in H'.
Qed.

(** C4. For every interpretation of double and every input, the call fails
    with InvalidDayOfYear exactly when DOY < 1 or DOY > 366, whatever the
    coordinates are (the test comes first); and with DOY in 1..366 and both
    stations in the region the call succeeds. *)
Theorem InvalidDayOfYear_iff {D : arith} (BaseTrop BaseCoor UserCoor : array3 D)
    (DOY : Z) (YorN : bool) (w : world D) :
  (fails_with InvalidDayOfYear w (GTHC_HK BaseTrop BaseCoor UserCoor DOY YorN w) <->
   (DOY < 1 \/ DOY > 366)%Z) /\
  (valid_DOY DOY -> in_region BaseCoor = true -> in_region UserCoor = true ->
   succeeds w (GTHC_HK BaseTrop BaseCoor UserCoor DOY YorN w)).
Proof.
  split.
  - split.
    + intros [Hr He].
      destruct (GTHC_HK_cases BaseCoor UserCoor DOY) as [H | [[Hd H] | [Hd [Hb Hu]]]];
        [ exact H | exfalso .. ].
      * rewrite (GTHC_HK_bad_region BaseTrop _ _ _ YorN w Hd H) in He. cbn in He.
        apply app_singleton_inj in He. now apply msg_DOY_neq_region.
      * rewrite (GTHC_HK_ok BaseTrop _ _ _ YorN w Hd Hb Hu) in Hr. discriminate Hr.
    + intros H. rewrite (GTHC_HK_bad_DOY _ _ _ _ _ _ H). split; reflexivity.
  - intros Hd Hb Hu. rewrite (GTHC_HK_ok _ _ _ _ _ _ Hd Hb Hu). split; reflexivity.
Qed.

Lemma InvalidDayOfYear_iff_witness :
  fails_with InvalidDayOfYear (World (Array3 1 2 3) [])%R
    (GTHC_HK (D := Rarith) demo_BaseTrop demo_BaseCoor demo_UserCoor 0 true
       (World (Array3 1 2 3) [])%R) /\
  fails_with InvalidDayOfYear (World (Array3 1 2 3) [])%R
    (GTHC_HK (D := Rarith) demo_BaseTrop (Array3 0 0 0)%R demo_UserCoor 367 true
       (World (Array3 1 2 3) [])%R) /\
  succeeds (World (Array3 1 2 3) [])%R
    (GTHC_HK (D := Rarith) demo_BaseTrop demo_BaseCoor demo_UserCoor 1 true
       (World (Array3 1 2 3) [])%R) /\
  succeeds (World (Array3 1 2 3) [])%R
    (GTHC_HK (D := Rarith) demo_BaseTrop demo_BaseCoor demo_UserCoor 366 false
       (World (Array3 1 2 3) [])%R).
Proof.
  split; [ | split; [ | split ] ].
  1-2: apply (proj1 (InvalidDayOfYear_iff (D := Rarith) _ _ _ _ _ _)); lia.
  1-2: apply (proj2 (InvalidDayOfYear_iff (D := Rarith) _ _ _ _ _ _));
    [ unfold valid_DOY; lia | apply demo_BaseCoor_in_region | apply demo_UserCoor_in_region ].
Defined.

(** C9. For every interpretation of double: a call that fails (returns a
    value other than 0) leaves [UserTrop] as it was, and what reaches the
    caller is the return value -1 with one diagnostic line, of one of the
    two kinds. *)
Theorem failure_leaves_UserTrop {D : arith} (BaseTrop BaseCoor UserCoor : array3 D)
    (DOY : Z) (YorN : bool) (w : world D) :
  fst (GTHC_HK BaseTrop BaseCoor UserCoor DOY YorN w) <> 0%Z ->
  UserTrop (snd (GTHC_HK BaseTrop BaseCoor UserCoor DOY YorN w)) = UserTrop w /\
  (fails_with InvalidDayOfYear w (GTHC_HK BaseTrop BaseCoor UserCoor DOY YorN w) \/
   fails_with OutOfRegion w (GTHC_HK BaseTrop BaseCoor UserCoor DOY YorN w)).
Proof.
  intros Hr.
  destruct (GTHC_HK_cases BaseCoor UserCoor DOY) as [H | [[Hd H] | [Hd [Hb Hu]]]].
  - rewrite (GTHC_HK_bad_DOY BaseTrop _ _ _ YorN w H).
    split; [ reflexivity | left; split; reflexivity ].
  - rewrite (GTHC_HK_bad_region BaseTrop _ _ _ YorN w Hd H).
    split; [ reflexivity | right; split; reflexivity ].
  - rewrite (GTHC_HK_ok BaseTrop _ _ _ YorN w Hd Hb Hu) in Hr. now elim Hr.
Qed.

Lemma failure_leaves_UserTrop_witness :
  UserTrop (snd (GTHC_HK (D := Rarith) demo_BaseTrop (Array3 0 0 0)%R demo_UserCoor
                   150 true (World (Array3 1 2 3) [])%R))
  = Array3 1%R 2%R 3%R.
Proof.
  apply (failure_leaves_UserTrop (D := Rarith)).
  rewrite (GTHC_HK_bad_region (D := Rarith)).
  - discriminate.
  - unfold valid_DOY; lia.
  - left. apply origin_not_in_region.
Defined.

(** C3, the claim refuted: a call that fails on the day of year and a call
    that fails on the region hand the caller the same value, -1. *)
Lemma both_failures_return_minus_one :
  fails_with InvalidDayOfYear (World (Array3 1 2 3) [])%R
    (GTHC_HK (D := Rarith) demo_BaseTrop demo_BaseCoor demo_UserCoor 0 true
       (World (Array3 1 2 3) [])%R) /\
  fails_with OutOfRegion (World (Array3 1 2 3) [])%R
    (GTHC_HK (D := Rarith) demo_BaseTrop (Array3 0 0 0)%R demo_UserCoor 150 true
       (World (Array3 1 2 3) [])%R) /\
  fst (GTHC_HK (D := Rarith) demo_BaseTrop demo_BaseCoor demo_UserCoor 0 true
         (World (Array3 1 2 3) [])%R)
  = fst (GTHC_HK (D := Rarith) demo_BaseTrop (Array3 0 0 0)%R demo_UserCoor 150 true
           (World (Array3 1 2 3) [])%R).
Proof.
  rewrite (GTHC_HK_bad_DOY (D := Rarith)) by lia.
  rewrite (GTHC_HK_bad_region (D := Rarith))
    by (unfold valid_DOY; try lia; left; apply origin_not_in_region).
  repeat split.
Qed.

(** C3, as the code has it. For every interpretation of double the caller
    receives an int, 0 on success and the one sentinel -1 on either
    failure; the two kinds differ only in the line printed on the error
    stream, and those two lines are different. *)
Theorem return_code_and_diagnostic {D : arith} (BaseTrop BaseCoor UserCoor : array3 D)
    (DOY : Z) (YorN : bool) (w : world D) :
  ((DOY < 1 \/ DOY > 366)%Z ->
     fst (GTHC_HK BaseTrop BaseCoor UserCoor DOY YorN w) = (-1)%Z /\
     stderr (snd (GTHC_HK BaseTrop BaseCoor UserCoor DOY YorN w)) = stderr w ++ [msg_DOY]) /\
  (valid_DOY DOY -> in_region BaseCoor = false \/ in_region UserCoor = false ->
     fst (GTHC_HK BaseTrop BaseCoor UserCoor DOY YorN w) = (-1)%Z /\
     stderr (snd (GTHC_HK BaseTrop BaseCoor UserCoor DOY YorN w)) = stderr w ++ [msg_region]) /\
  (valid_DOY DOY -> in_region BaseCoor = true -> in_region UserCoor = true ->
     fst (GTHC_HK BaseTrop BaseCoor UserCoor DOY YorN w) = 0%Z /\
     stderr (snd (GTHC_HK BaseTrop BaseCoor UserCoor DOY YorN w)) = stderr w) /\
  msg_DOY <> msg_region.
Proof.
  split; [ | split; [ | split ] ].
  - intros H. rewrite (GTHC_HK_bad_DOY _ _ _ _ _ _ H). split; reflexivity.
  - intros Hd H. rewrite (GTHC_HK_bad_region _ _ _ _ _ _ Hd H). split; reflexivity.
  - intros Hd Hb Hu. rewrite (GTHC_HK_ok _ _ _ _ _ _ Hd Hb Hu). split; reflexivity.
  - exact msg_DOY_neq_region.
Qed.

Lemma return_code_and_diagnostic_witness :
  fst (GTHC_HK (D := Rarith) demo_BaseTrop demo_BaseCoor demo_UserCoor 367 false
         (World (Array3 1 2 3) ["earlier line"%string])%R) = (-1)%Z /\
  stderr (snd (GTHC_HK (D := Rarith) demo_BaseTrop demo_BaseCoor demo_UserCoor 367 false
                 (World (Array3 1 2 3) ["earlier line"%string])%R))
  = ["earlier line"%string] ++ [msg_DOY].
Proof.
  exact (proj1 (return_code_and_diagnostic (D := Rarith)
                  demo_BaseTrop demo_BaseCoor demo_UserCoor 367 false
                  (World (Array3 1 2 3) ["earlier line"%string])%R)
           (or_intror eq_refl)).
Defined.

(** C8, the claim refuted: with the base station at (0, 0, 0) and DOY = 0
    the call does not fail with OutOfRegion; the day of year is tested
    first and the failure is InvalidDayOfYear. *)
Lemma origin_with_bad_DOY_is_not_OutOfRegion :
  ~ fails_with OutOfRegion (World (Array3 1 2 3) [])%R
      (GTHC_HK (D := Rarith) demo_BaseTrop (Array3 0 0 0)%R demo_UserCoor 0 true
         (World (Array3 1 2 3) [])%R).
Proof.
  rewrite (GTHC_HK_bad_DOY (D := Rarith)) by lia.
  intros [_ H]. cbn in H. discriminate H.
Qed.

(** C8, as the code has it. Over the reals: a call whose base station is
    at (0, 0, 0) fails for every DOY and whatever the other inputs are,
    with OutOfRegion when DOY is in 1..366 and with InvalidDayOfYear
    otherwise; and for DOY in 1..366 every call in which the base or the
    user station is outside the rectangle fails with OutOfRegion. *)
Theorem OutOfRegion_when_DOY_valid (BaseTrop BaseCoor UserCoor : array3 Rarith)
    (DOY : Z) (YorN : bool) (w : world Rarith) :
  (BaseCoor = Array3 0%R 0%R 0%R ->
   (valid_DOY DOY ->
    fails_with OutOfRegion w (GTHC_HK BaseTrop BaseCoor UserCoor DOY YorN w)) /\
   (~ valid_DOY DOY ->
    fails_with InvalidDayOfYear w (GTHC_HK BaseTrop BaseCoor UserCoor DOY YorN w))) /\
  (valid_DOY DOY ->
   in_region BaseCoor = false \/ in_region UserCoor = false ->
   fails_with OutOfRegion w (GTHC_HK BaseTrop BaseCoor UserCoor DOY YorN w)).
Proof.
  assert (Hregion : valid_DOY DOY ->
            in_region BaseCoor = false \/ in_region UserCoor = false ->
            fails_with OutOfRegion w (GTHC_HK BaseTrop BaseCoor UserCoor DOY YorN w)).
  { intros Hd Hr. rewrite (GTHC_HK_bad_region _ _ _ _ _ _ Hd Hr). split; reflexivity. }
  split; [ | exact Hregion ].
  intros HB. split.
  - intros Hd. apply (Hregion Hd). left. rewrite HB. apply origin_not_in_region.
  - intros Hd.
    assert (H : (DOY < 1 \/ DOY > 366)%Z) by (unfold valid_DOY in Hd; lia).
    rewrite (GTHC_HK_bad_DOY _ _ _ _ _ _ H). split; reflexivity.
Qed.

Lemma OutOfRegion_when_DOY_valid_witness :
  fails_with OutOfRegion (World (Array3 1 2 3) [])%R
    (GTHC_HK (D := Rarith) demo_BaseTrop (Array3 0 0 0)%R demo_UserCoor 150 true
       (World (Array3 1 2 3) [])%R).
Proof.
  apply (proj1 (OutOfRegion_when_DOY_valid demo_BaseTrop (Array3 0 0 0)%R
                  demo_UserCoor 150 true (World (Array3 1 2 3) [])%R)).
  - reflexivity.
  - unfold valid_DOY; lia.
Defined.

(** ** The correction formula *)

(** C1. For every interpretation of double: with DOY in 1..366 and both
    stations in the region the call returns 0, prints nothing, and writes,
    for each of ZHD, ZWD and ZTD, the base value divided by
    exp(-(Hgt_user - Hgt_base) / beta), with beta = 8431.2 for ZHD and, when
    the seasonal flag is off, beta = 7228.8 for ZTD and beta = 3254.1 for
    ZWD. *)
Theorem GTHC_HK_formula {D : arith} (BaseTrop BaseCoor UserCoor : array3 D)
    (DOY : Z) (YorN : bool) (w : world D) :
  valid_DOY DOY -> in_region BaseCoor = true -> in_region UserCoor = true ->
  let hgt_diff := (at2 UserCoor - at2 BaseCoor)%dbl in
  let beta_ZTD := fst (seasonal_parameters DOY YorN) in
  let beta_ZWD := snd (seasonal_parameters DOY YorN) in
  GTHC_HK BaseTrop BaseCoor UserCoor DOY YorN w =
    (0%Z,
     World (Array3 (at0 BaseTrop / d_exp (- hgt_diff / d_lit 8431.2))%dbl
                   (at1 BaseTrop / d_exp (- hgt_diff / beta_ZWD))%dbl
                   (at2 BaseTrop / d_exp (- hgt_diff / beta_ZTD))%dbl)
           (stderr w)) /\
  (YorN = false -> beta_ZTD = d_lit 7228.8 /\ beta_ZWD = d_lit 3254.1).
Proof.
  intros Hd Hb Hu hgt_diff beta_ZTD beta_ZWD.
  rewrite (GTHC_HK_ok _ _ _ _ _ _ Hd Hb Hu).
  split; [ reflexivity | ].
  intros ->. split; reflexivity.
Qed.

Lemma GTHC_HK_formula_witness :
  GTHC_HK (D := Rarith) demo_BaseTrop demo_BaseCoor demo_UserCoor
    150 false (World (Array3 1 2 3) [])%R =
  (0%Z,
   World (Array3 (2200 / exp (- (200 - 50) / 8431.2))
                 (150 / exp (- (200 - 50) / 3254.1))
                 (2350 / exp (- (200 - 50) / 7228.8)))%R
         []).
Proof.
  apply (GTHC_HK_formula (D := Rarith) demo_BaseTrop demo_BaseCoor demo_UserCoor
           150 false (World (Array3 1 2 3) [])%R).
  - unfold valid_DOY; lia.
  - apply demo_BaseCoor_in_region.
  - apply demo_UserCoor_in_region.
Defined.

(** C7. For every interpretation of double: with the seasonal flag on, the
    scale heights are the two sinusoids at t = DOY / 365.25, with the
    coefficients of the source, the term in cos(4 pi t) occurring twice in
    the wet one (coefficients 36218.6610049341 and -36297.5776200211), and
    a valid call divides by the exponentials built from them. *)
Theorem seasonal_scale_heights {D : arith} (BaseTrop BaseCoor UserCoor : array3 D)
    (DOY : Z) (w : world D) :
  let t := (d_of_int DOY / d_lit 365.25)%dbl in
  let ztd_seasonal :=
    (d_lit 336.744129380450 * d_cos (d_of_int 2 * d_pi * t)
     + d_lit 40.0468935232165 * d_sin (d_of_int 2 * d_pi * t)
     + d_lit 7222.97084384999)%dbl in
  let zwd_seasonal :=
    (d_lit (-16.7865051683731) * d_cos (d_of_int 2 * d_pi * t)
     + d_lit 36218.6610049341 * d_cos (d_of_int 4 * d_pi * t)
     + d_lit (-130.895834349628) * d_sin (d_of_int 2 * d_pi * t)
     + d_lit (-36297.5776200211) * d_cos (d_of_int 4 * d_pi * t)
     + d_lit 3253.60038161059)%dbl in
  let hgt_diff := (at2 UserCoor - at2 BaseCoor)%dbl in
  seasonal_parameters DOY true = (ztd_seasonal, zwd_seasonal) /\
  (valid_DOY DOY -> in_region BaseCoor = true -> in_region UserCoor = true ->
   GTHC_HK BaseTrop BaseCoor UserCoor DOY true w =
   (0%Z,
    World (Array3 (at0 BaseTrop / d_exp (- hgt_diff / d_lit 8431.2))%dbl
                  (at1 BaseTrop / d_exp (- hgt_diff / zwd_seasonal))%dbl
                  (at2 BaseTrop / d_exp (- hgt_diff / ztd_seasonal))%dbl)
          (stderr w))).
Proof.
  intros t ztd_seasonal zwd_seasonal hgt_diff. split.
  - reflexivity.
  - intros Hd Hb Hu. rewrite (GTHC_HK_ok _ _ _ _ _ _ Hd Hb Hu). reflexivity.
Qed.

Lemma seasonal_scale_heights_witness :
  GTHC_HK (D := Rarith) demo_BaseTrop demo_BaseCoor demo_UserCoor 150 true
    (World (Array3 1 2 3) [])%R =
  (0%Z,
   World (Array3
      (2200 / exp (- (200 - 50) / 8431.2))
      (150 / exp (- (200 - 50) /
         (-16.7865051683731 * cos (2 * PI * (150 / 365.25))
          + 36218.6610049341 * cos (4 * PI * (150 / 365.25))
          + -130.895834349628 * sin (2 * PI * (150 / 365.25))
          + -36297.5776200211 * cos (4 * PI * (150 / 365.25))
          + 3253.60038161059)))
      (2350 / exp (- (200 - 50) /
         (336.744129380450 * cos (2 * PI * (150 / 365.25))
          + 40.0468935232165 * sin (2 * PI * (150 / 365.25))
          + 7222.97084384999))))%R
     []).
Proof.
  apply (proj2 (seasonal_scale_heights (D := Rarith) demo_BaseTrop demo_BaseCoor
                  demo_UserCoor 150 (World (Array3 1 2 3) [])%R)).
  - unfold valid_DOY; lia.
  - apply demo_BaseCoor_in_region.
  - apply demo_UserCoor_in_region.
Defined.

(** ** The seasonal model over the reals *)

Section RealModel.

Local Open Scope R_scope.
Implicit Types (BaseTrop BaseCoor UserCoor : array3 Rarith) (w : world Rarith).

Lemma func_sinZTD_real (t : R) :
  func_sinZTD (D := Rarith) A_ZTD t =
  336.744129380450 * cos (2 * PI * t) + 40.0468935232165 * sin (2 * PI * t)
  + 7222.97084384999.
Proof. reflexivity. Qed.

Lemma func_sinZWD_real (t : R) :
  func_sinZWD (D := Rarith) A_ZWD t =
  -16.7865051683731 * cos (2 * PI * t) + 36218.6610049341 * cos (4 * PI * t)
  + -130.895834349628 * sin (2 * PI * t) + -36297.5776200211 * cos (4 * PI * t)
  + 3253.60038161059.
Proof. reflexivity. Qed.


Lemma func_sinZTD_bounds (t : R) :
  7222.97084384999 - 339.2 <= func_sinZTD (D := Rarith) A_ZTD t
  <= 7222.97084384999 + 339.2.
Proof.
  rewrite func_sinZTD_real.
  pose proof (sin2_cos2 (2 * PI * t)) as H. unfold Rsqr in H.
  set (c := cos (2 * PI * t)) in *. set (s := sin (2 * PI * t)) in *.
  pose proof (Rle_0_sqr (40.0468935232165 * c - 336.744129380450 * s)) as H1.
  unfold Rsqr in H1.
  assert (H2 : (336.744129380450 * c + 40.0468935232165 * s)
               * (336.744129380450 * c + 40.0468935232165 * s) <= 339.2 * 339.2)
    by nra.
  split; nra.
Qed.

Lemma func_sinZWD_bounds (t : R) :
  3253.60038161059 - 227 <= func_sinZWD (D := Rarith) A_ZWD t
  <= 3253.60038161059 + 227.
Proof.
  rewrite func_sinZWD_real.
  pose proof (COS_bound (2 * PI * t)). pose proof (SIN_bound (2 * PI * t)).
  pose proof (COS_bound (4 * PI * t)).
  split; lra.
Qed.



Lemma func_sinZTD_pos (t : R) : 0 < func_sinZTD (D := Rarith) A_ZTD t.
Proof. pose proof (func_sinZTD_bounds t). lra. Qed.

Lemma func_sinZWD_pos (t : R) : 0 < func_sinZWD (D := Rarith) A_ZWD t.
Proof. pose proof (func_sinZWD_bounds t). lra. Qed.

Lemma beta_ZHD_pos : 0 < beta_ZHD (D := Rarith).
Proof. unfold beta_ZHD. cbn. lra. Qed.

Lemma seasonal_parameters_pos (DOY : Z) (YorN : bool) :
  0 < fst (seasonal_parameters (D := Rarith) DOY YorN) /\
  0 < snd (seasonal_parameters (D := Rarith) DOY YorN).
Proof.
  destruct YorN; cbn [seasonal_parameters fst snd].
  - split; [ apply func_sinZTD_pos | apply func_sinZWD_pos ].
  - cbn. lra.
Qed.


(** ** Identity and monotonicity in the height, over the reals *)

Lemma scale_at_zero (V beta : R) : V / exp (- 0 / beta) = V.
Proof.
  rewrite Ropp_0. unfold Rdiv at 2. rewrite Rmult_0_l, exp_0. apply Rdiv_1_r.
Qed.

Lemma scale_increasing (V beta d1 d2 : R) :
  0 < beta -> 0 < V -> d1 < d2 ->
  V / exp (- d1 / beta) < V / exp (- d2 / beta).
Proof.
  intros Hb HV Hd. unfold Rdiv at 1 3.
  apply Rmult_lt_compat_l; [ exact HV | ].
  apply Rinv_lt_contravar.
  - apply Rmult_lt_0_compat; apply exp_pos.
  - apply exp_increasing. unfold Rdiv.
    apply Rmult_lt_compat_r; [ now apply Rinv_0_lt_compat | lra ].
Qed.






(** The demonstration call succeeds, and raises each of the three delays. *)
Lemma demo_call_succeeds w :
  fst (demo_call (D := Rarith) w) = 0%Z /\
  2200 < at0 (UserTrop (snd (demo_call (D := Rarith) w))) /\
  150 < at1 (UserTrop (snd (demo_call (D := Rarith) w))) /\
  2350 < at2 (UserTrop (snd (demo_call (D := Rarith) w))).
Proof.
  unfold demo_call.
  pose proof (GTHC_HK_ok demo_BaseTrop demo_BaseCoor demo_UserCoor 150 true w
                ltac:(unfold valid_DOY; lia) demo_BaseCoor_in_region
                demo_UserCoor_in_region) as H1.
  split; [ now rewrite H1 | ].
  rewrite H1. cbn [snd UserTrop at0 at1 at2 demo_BaseTrop].
  destruct (seasonal_parameters_pos 150 true) as [Ht Hw].
  pose proof beta_ZHD_pos as Hh.
  pose proof (fun V b Hb HV => scale_increasing V b 0 (200 - 50) Hb HV ltac:(lra)) as Hs.
  repeat split.
  - specialize (Hs 2200 _ Hh ltac:(lra)). rewrite scale_at_zero in Hs. exact Hs.
  - specialize (Hs 150 _ Hw ltac:(lra)). rewrite scale_at_zero in Hs. exact Hs.
  - specialize (Hs 2350 _ Ht ltac:(lra)). rewrite scale_at_zero in Hs. exact Hs.
Qed.

End RealModel.

(** ** The same calls in binary64

    The libm functions stay parameters; what is evaluated is the decimal
    literals, the comparisons, the conversion of DOY and the arithmetic
    around the calls to libm. *)

Section Binary64.

Variables libm_exp libm_cos libm_sin : float -> float.
Local Notation "'B64'" := (binary64 libm_exp libm_cos libm_sin).

#[local] Set Warnings "-inexact-float".

(* Every decimal literal of the source is read as the binary64 number
   nearest to it. *)
Lemma decimal_literals_binary64 :
  (@HK_LAT_MIN B64, @HK_LAT_MAX B64, @HK_LON_MIN B64, @HK_LON_MAX B64)
    = (22.1, 22.6, 113.8, 114.5)%float /\
  @A_ZTD B64
    = (Array3 336.744129380450 40.0468935232165 7222.97084384999)%float /\
  @A_ZWD B64
    = (Array5 (-16.7865051683731) 36218.6610049341 (-130.895834349628)
              (-36297.5776200211) 3253.60038161059)%float /\
  (@beta_ZHD B64, seasonal_parameters (D := B64) 1 false)
    = (8431.2, (7228.8, 3254.1))%float /\
  d_lit (a := B64) 365.25 = 365.25%float.
Proof. vm_compute. repeat split; reflexivity. Qed.

Lemma GTHC_HK_binary64_failures (w : world B64) :
  GTHC_HK (D := B64) demo_BaseTrop demo_BaseCoor demo_UserCoor 0 true w
    = ((-1)%Z, World (UserTrop w) (stderr w ++ [msg_DOY])) /\
  GTHC_HK (D := B64) demo_BaseTrop demo_BaseCoor demo_UserCoor 367 true w
    = ((-1)%Z, World (UserTrop w) (stderr w ++ [msg_DOY])) /\
  GTHC_HK (D := B64) demo_BaseTrop (Array3 0 0 0)%float demo_UserCoor 150 true w
    = ((-1)%Z, World (UserTrop w) (stderr w ++ [msg_region])) /\
  GTHC_HK (D := B64) demo_BaseTrop demo_BaseCoor (Array3 nan 114.15 200)%float 150 true w
    = ((-1)%Z, World (UserTrop w) (stderr w ++ [msg_region])).
Proof. repeat split. Qed.

(* With the base station at latitude 0 and longitude 0 every call with a
   valid DOY fails on the region. *)
Lemma origin_OutOfRegion_binary64 (BaseTrop UserCoor : array3 B64) (h : float)
    (DOY : Z) (YorN : bool) (w : world B64) :
  valid_DOY DOY ->
  fails_with OutOfRegion w
    (GTHC_HK (D := B64) BaseTrop (Array3 0 0 h)%float UserCoor DOY YorN w).
Proof.
  intros Hd.
  assert (Hr : in_region (D := B64) (Array3 0 0 h)%float = false \/
               in_region (D := B64) UserCoor = false) by (left; reflexivity).
  rewrite (GTHC_HK_bad_region (D := B64) BaseTrop _ _ _ YorN w Hd Hr).
  split; reflexivity.
Qed.

(* The demonstration call with the seasonal flag off: the arguments of exp
   are -150 / 8431.2, -150 / 3254.1 and -150 / 7228.8, rounded. *)
Lemma GTHC_HK_binary64_demo (w : world B64) :
  GTHC_HK (D := B64) demo_BaseTrop demo_BaseCoor demo_UserCoor 150 false w
    = (0%Z,
       World (Array3 (2200 / libm_exp (-0x1.237d1f1dce027p-6))
                     (150 / libm_exp (-0x1.799dada1ed2aap-5))
                     (2350 / libm_exp (-0x1.53f9335603665p-6)))%float
             (stderr w)).
Proof. reflexivity. Qed.

(* With equal finite heights the argument of exp is -0; with equal
   infinite heights the difference of the heights is NaN. *)
Lemma GTHC_HK_binary64_equal_heights (w : world B64) :
  GTHC_HK (D := B64) demo_BaseTrop demo_BaseCoor (Array3 22.35 114.15 50)%float
    150 false w
    = (0%Z,
       World (Array3 (2200 / libm_exp (-0)) (150 / libm_exp (-0))
                     (2350 / libm_exp (-0)))%float
             (stderr w)) /\
  GTHC_HK (D := B64) demo_BaseTrop (Array3 22.3 114.2 infinity)%float
    (Array3 22.35 114.15 infinity)%float 150 false w
    = (0%Z,
       World (Array3 (2200 / libm_exp nan) (150 / libm_exp nan)
                     (2350 / libm_exp nan))%float
             (stderr w)).
Proof. repeat split. Qed.

End Binary64.

(** ** The order of binary64 numbers and the region test

    The comparison of two finite binary64 numbers is the comparison of
    their values. *)

Section Order.
Local Open Scope Z_scope.

Lemma digits2_pos_bounds (m : positive) :
  2 ^ (Zpos (digits2_pos m) - 1) <= Zpos m < 2 ^ Zpos (digits2_pos m).
Proof.
  induction m as [p IH | p IH | ]; cbn [digits2_pos].
  - rewrite Pos2Z.inj_succ, Z.pow_succ_r by lia.
    replace (Z.succ (Zpos (digits2_pos p)) - 1) with (Z.succ (Zpos (digits2_pos p) - 1)) by lia.
    rewrite Z.pow_succ_r by lia. lia.
  - rewrite Pos2Z.inj_succ, Z.pow_succ_r by lia.
    replace (Z.succ (Zpos (digits2_pos p)) - 1) with (Z.succ (Zpos (digits2_pos p) - 1)) by lia.
    rewrite Z.pow_succ_r by lia. lia.
  - cbn. lia.
Qed.

Lemma bounded_inv (m : positive) (e : Z) :
  bounded prec emax m e = true ->
  Z.max (Zpos (digits2_pos m) + e - 53) (-1074) = e /\ e <= 971.
Proof.
  unfold bounded, canonical_mantissa, fexp, SpecFloat.emin, prec, emax.
  rewrite andb_true_iff, Z.eqb_eq, Z.leb_le. cbn. tauto.
Qed.

(* Of two canonical mantissas, the one with the larger exponent is larger. *)
Lemma canonical_exponent_lt (m1 m2 : positive) (e1 e2 : Z) :
  bounded prec emax m1 e1 = true -> bounded prec emax m2 e2 = true ->
  e1 < e2 ->
  Zpos m1 * 2 ^ (e1 + 1074) < Zpos m2 * 2 ^ (e2 + 1074).
Proof.
  intros H1 H2 He.
  apply bounded_inv in H1, H2. destruct H1 as [H1 _], H2 as [H2 _].
  pose proof (digits2_pos_bounds m1) as [_ B1].
  pose proof (digits2_pos_bounds m2) as [B2 _].
  assert (D1 : Zpos (digits2_pos m1) <= 53) by lia.
  assert (D2 : Zpos (digits2_pos m2) = 53) by lia.
  rewrite D2 in B2. change (2 ^ (53 - 1)) with (2 ^ 52) in B2.
  assert (B1' : Zpos m1 < 2 ^ 53).
  { eapply Z.lt_le_trans; [ exact B1 | apply Z.pow_le_mono_r; lia ]. }
  assert (P1 : 0 < 2 ^ (e1 + 1074)) by (apply Z.pow_pos_nonneg; lia).
  assert (P2 : 2 * 2 ^ (e1 + 1074) <= 2 ^ (e2 + 1074)).
  { rewrite <- Z.pow_succ_r by lia. apply Z.pow_le_mono_r; lia. }
  change (2 ^ 53) with (2 * 2 ^ 52) in B1'.
  nia.
Qed.

Lemma SFleb_finite (s1 s2 : bool) (m1 m2 : positive) (e1 e2 : Z) :
  bounded prec emax m1 e1 = true -> bounded prec emax m2 e2 = true ->
  SFleb (S754_finite s1 m1 e1) (S754_finite s2 m2 e2) = true <->
  SF_scaled (S754_finite s1 m1 e1) <= SF_scaled (S754_finite s2 m2 e2).
Proof.
  intros H1 H2.
  pose proof (canonical_exponent_lt m1 m2 e1 e2 H1 H2) as Hlt.
  pose proof (canonical_exponent_lt m2 m1 e2 e1 H2 H1) as Hgt.
  assert (E1 : -1074 <= e1) by (apply bounded_inv in H1; lia).
  assert (E2 : -1074 <= e2) by (apply bounded_inv in H2; lia).
  assert (P1 : 0 < 2 ^ (e1 + 1074)) by (apply Z.pow_pos_nonneg; lia).
  assert (P2 : 0 < 2 ^ (e2 + 1074)) by (apply Z.pow_pos_nonneg; lia).
  unfold SFleb, SFcompare, SF_scaled, cond_Zopp.
  change (Pos.compare_cont Eq m1 m2) with (Pos.compare m1 m2).
  destruct s1, s2.
  - destruct (Z.compare_spec e1 e2) as [-> | He | He].
    + destruct (Pos.compare_spec m1 m2) as [-> | Hm | Hm]; cbn [CompOpp];
        split; try easy; nia.
    + specialize (Hlt He). split; try easy; nia.
    + specialize (Hgt He). split; try easy; nia.
  - split; try easy; nia.
  - split; try easy; nia.
  - destruct (Z.compare_spec e1 e2) as [-> | He | He].
    + destruct (Pos.compare_spec m1 m2) as [-> | Hm | Hm]; cbn [CompOpp];
        split; try easy; nia.
    + specialize (Hlt He). split; try easy; nia.
    + specialize (Hgt He). split; try easy; nia.
Qed.

Lemma SFleb_scaled (f1 f2 : spec_float) :
  valid_binary f1 = true -> valid_binary f2 = true ->
  SF_is_finite f1 = true -> SF_is_finite f2 = true ->
  SFleb f1 f2 = true <-> SF_scaled f1 <= SF_scaled f2.
Proof.
  intros V1 V2 F1 F2.
  destruct f1 as [s1 | s1 | | s1 m1 e1], f2 as [s2 | s2 | | s2 m2 e2]; try discriminate.
  - cbn. split; [ lia | reflexivity ].
  - assert (E2 : -1074 <= e2) by (apply bounded_inv in V2; lia).
    assert (P2 : 0 < 2 ^ (e2 + 1074)) by (apply Z.pow_pos_nonneg; lia).
    unfold SFleb, SFcompare, SF_scaled, cond_Zopp. destruct s2; split; try easy; nia.
  - assert (E1 : -1074 <= e1) by (apply bounded_inv in V1; lia).
    assert (P1 : 0 < 2 ^ (e1 + 1074)) by (apply Z.pow_pos_nonneg; lia).
    unfold SFleb, SFcompare, SF_scaled, cond_Zopp. destruct s1; split; try easy; nia.
  - now apply SFleb_finite.
Qed.

End Order.

Section OrderReal.
Local Open Scope R_scope.

Lemma IZR_pow2 (k : Z) : (0 <= k)%Z -> IZR (2 ^ k) = powerRZ 2 k.
Proof.
  intros Hk. rewrite <- (Z2Nat.id k Hk) at 1 2.
  now rewrite <- pow_IZR, pow_powerRZ.
Qed.

Lemma powerRZ_2_neg (p : positive) : powerRZ 2 (Zneg p) = / IZR (2 ^ Zpos p).
Proof.
  cbn [powerRZ]. now rewrite pow_IZR, positive_nat_Z.
Qed.

Lemma SF2R_scaled (f : spec_float) :
  valid_binary f = true -> SF2R f = IZR (SF_scaled f) * powerRZ 2 (-1074).
Proof.
  destruct f as [s | s | | s m e]; cbn [SF2R SF_scaled]; intros V; try lra.
  assert (E : (-1074 <= e)%Z) by (apply bounded_inv in V; lia).
  replace (powerRZ 2 e) with (powerRZ 2 (e + 1074) * powerRZ 2 (-1074)).
  2:{ rewrite <- powerRZ_add by lra. f_equal. lia. }
  rewrite <- IZR_pow2 by lia.
  destruct s; cbn [cond_Zopp]; rewrite ?opp_IZR, mult_IZR; lra.
Qed.

Lemma SFleb_SF2R (f1 f2 : spec_float) :
  valid_binary f1 = true -> valid_binary f2 = true ->
  SF_is_finite f1 = true -> SF_is_finite f2 = true ->
  SFleb f1 f2 = true <-> SF2R f1 <= SF2R f2.
Proof.
  intros V1 V2 F1 F2.
  rewrite (SFleb_scaled f1 f2 V1 V2 F1 F2), (SF2R_scaled f1 V1), (SF2R_scaled f2 V2).
  pose proof (powerRZ_lt 2 (-1074) ltac:(lra)) as Hp.
  split; intros H.
  - apply Rmult_le_compat_r; [ lra | now apply IZR_le ].
  - apply le_IZR. apply Rmult_le_reg_r with (1 := Hp). exact H.
Qed.

Lemma is_finite_SF (x : float) : PrimFloat.is_finite x = SF_is_finite (Prim2SF x).
Proof.
  unfold PrimFloat.is_finite, PrimFloat.is_nan, PrimFloat.is_infinity.
  rewrite !FloatAxioms.eqb_spec, FloatAxioms.abs_spec.
  change (Prim2SF infinity) with (S754_infinity false).
  destruct (Prim2SF x) as [s | s | | s m e]; cbn [SFabs SF_is_finite];
    unfold SFeqb, SFcompare; try reflexivity.
  - now destruct s.
  - rewrite Z.compare_refl, Pcompare_refl. now destruct s.
Qed.

(* On finite numbers [<=] is the order of the values. *)
Lemma leb_B2R (x y : float) :
  PrimFloat.is_finite x = true -> PrimFloat.is_finite y = true ->
  (x <=? y)%float = true <-> B2R x <= B2R y.
Proof.
  rewrite !is_finite_SF, FloatAxioms.leb_spec. unfold B2R.
  apply SFleb_SF2R; apply Prim2SF_valid.
Qed.

(* A number between two finite numbers is finite. *)
Lemma between_is_finite (lo x hi : float) :
  PrimFloat.is_finite lo = true -> PrimFloat.is_finite hi = true ->
  (lo <=? x)%float = true -> (x <=? hi)%float = true ->
  PrimFloat.is_finite x = true.
Proof.
  rewrite !is_finite_SF, !FloatAxioms.leb_spec.
  destruct (Prim2SF x) as [s | s | | s m e]; try reflexivity;
    destruct (Prim2SF lo) as [sl | sl | | sl ml el]; try discriminate;
    destruct (Prim2SF hi) as [sh | sh | | sh mh eh]; try discriminate;
    unfold SFleb, SFcompare; destruct s; try discriminate;
    try destruct sl; try destruct sh; discriminate.
Qed.

Lemma between_B2R (lo x hi : float) :
  PrimFloat.is_finite lo = true -> PrimFloat.is_finite hi = true ->
  (lo <=? x)%float && (x <=? hi)%float = true <->
  PrimFloat.is_finite x = true /\ B2R lo <= B2R x <= B2R hi.
Proof.
  intros Hlo Hhi. rewrite andb_true_iff. split.
  - intros [H1 H2].
    pose proof (between_is_finite lo x hi Hlo Hhi H1 H2) as Hx.
    apply (leb_B2R lo x Hlo Hx) in H1. apply (leb_B2R x hi Hx Hhi) in H2. tauto.
  - intros [Hx [H1 H2]].
    split; [ now apply (leb_B2R lo x Hlo Hx) | now apply (leb_B2R x hi Hx Hhi) ].
Qed.

(** C2 in binary64 (the claim itself is settled over the reals above).
    Whatever libm is, [is_in_hongkong] answers true exactly for the pairs
    of finite numbers whose values lie in the closed rectangle bounded by
    the four literals as binary64 rounds them; those bounds are within
    1e-14 of 22.1, 22.6, 113.8 and 114.5. *)
Theorem is_in_hongkong_binary64_iff (libm_exp libm_cos libm_sin : float -> float)
    (lat lon : float) :
  (is_in_hongkong (D := binary64 libm_exp libm_cos libm_sin) lat lon = true <->
   PrimFloat.is_finite lat = true /\ PrimFloat.is_finite lon = true /\
   B2R (float_of_decimal 22.1) <= B2R lat <= B2R (float_of_decimal 22.6) /\
   B2R (float_of_decimal 113.8) <= B2R lon <= B2R (float_of_decimal 114.5)) /\
  Rabs (B2R (float_of_decimal 22.1) - 22.1) <= 1e-14 /\
  Rabs (B2R (float_of_decimal 22.6) - 22.6) <= 1e-14 /\
  Rabs (B2R (float_of_decimal 113.8) - 113.8) <= 1e-14 /\
  Rabs (B2R (float_of_decimal 114.5) - 114.5) <= 1e-14.
Proof.
  split.
  - unfold is_in_hongkong, HK_LAT_MIN, HK_LAT_MAX, HK_LON_MIN, HK_LON_MAX.
    cbn [d_le d_lit binary64].
    rewrite andb_true_iff, !between_B2R by reflexivity. tauto.
  - unfold B2R.
    change (Prim2SF (float_of_decimal 22.1))
      with (S754_finite false 6220596985305498 (-48)).
    change (Prim2SF (float_of_decimal 22.6))
      with (S754_finite false 6361334473660826 (-48)).
    change (Prim2SF (float_of_decimal 113.8))
      with (S754_finite false 8007963087418163 (-46)).
    change (Prim2SF (float_of_decimal 114.5)) with (S754_finite false 8057221208342528 (-46)).
    cbn [SF2R]. rewrite !powerRZ_2_neg.
    change (2 ^ 48)%Z with 281474976710656%Z.
    change (2 ^ 46)%Z with 70368744177664%Z.
    repeat split; apply Rabs_le; lra.
Qed.

End OrderReal.

(** ** Identity at equal heights, in binary64

    The steps of the exact result, on IEEE numbers: [h - h] is +0 for a
    finite [h]; its opposite -0 divided by a scale height that is a
    nonzero number is a zero; a libm whose [exp] is 1 at both zeros (C's
    Annex F) returns 1; and [V / 1] is [V], bit for bit. *)

Section Binary64Identity.

Local Open Scope Z_scope.

Lemma Prim2SF_one : Prim2SF 1%float = S754_finite false 4503599627370496 (-52).
Proof. vm_compute. reflexivity. Qed.

Lemma div_eucl_mul (a b : Z) : 0 < b -> Z.div_eucl (a * b) b = (a, 0).
Proof.
  intros Hb.
  assert (H : Z.div_eucl (a * b) b = ((a * b) / b, (a * b) mod b)).
  { unfold Z.div, Z.modulo. now destruct (Z.div_eucl (a * b) b). }
  rewrite H, Z.div_mul, Z.mod_mul by lia. reflexivity.
Qed.

(* Dividing a canonical mantissa by 2^52 * 2^-52: the quotient is the
   mantissa, shifted by one bit unless the exponent is the least one, with
   nothing to round. *)
Lemma SFdiv_one (s : bool) (m : positive) (e : Z) :
  bounded prec emax m e = true ->
  SFdiv prec emax (S754_finite s m e) (S754_finite false 4503599627370496 (-52))
  = S754_finite s m e.
Proof.
  intros Hb. apply bounded_inv in Hb. destruct Hb as [Hc Hb].
  unfold SFdiv, SFdiv_core_binary.
  cbn [Zdigits2]. change (Zpos (digits2_pos 4503599627370496)) with 53.
  remember (Zpos (digits2_pos m)) as d eqn:Hd.
  assert (Hf' : fexp prec emax (d + e) = e).
  { unfold fexp, SpecFloat.emin, prec, emax. lia. }
  assert (Hle : (e <=? emax - prec) = true).
  { apply Z.leb_le. unfold emax, prec. lia. }
  destruct (Z.eq_dec e (-1074)) as [He | He].
  - assert (Hf : fexp prec emax (d + e - (53 + -52)) = e).
    { unfold fexp, SpecFloat.emin, prec, emax. lia. }
    rewrite Hf. replace (Z.min e (e - -52)) with e by lia.
    replace (e - -52 - e) with 52 by lia.
    rewrite Z.shiftl_mul_pow2 by lia.
    change (2 ^ 52) with 4503599627370496.
    rewrite (div_eucl_mul (Zpos m) 4503599627370496) by lia.
    change (new_location 4503599627370496 0) with loc_Exact.
    unfold binary_round_aux, shr_fexp. cbn [Zdigits2 shr_record_of_loc].
    rewrite <- Hd, Hf', Z.sub_diag.
    cbn [shr shr_m loc_of_shr_record round_nearest_even Zdigits2].
    rewrite <- Hd, Hf', Z.sub_diag. cbn [shr shr_m].
    now rewrite Hle, xorb_false_r.
  - assert (Hf : fexp prec emax (d + e - (53 + -52)) = e - 1).
    { unfold fexp, SpecFloat.emin, prec, emax. lia. }
    rewrite Hf. replace (Z.min (e - 1) (e - -52)) with (e - 1) by lia.
    replace (e - -52 - (e - 1)) with 53 by lia.
    rewrite Z.shiftl_mul_pow2 by lia.
    replace (Zpos m * 2 ^ 53) with (Zpos m~0 * 4503599627370496) by lia.
    rewrite (div_eucl_mul (Zpos m~0) 4503599627370496) by lia.
    change (new_location 4503599627370496 0) with loc_Exact.
    unfold binary_round_aux, shr_fexp. cbn [Zdigits2 shr_record_of_loc digits2_pos].
    rewrite Pos2Z.inj_succ, <- Hd.
    replace (Z.succ d + (e - 1)) with (d + e) by lia.
    rewrite Hf'. replace (e - (e - 1)) with 1 by lia.
    cbn [shr iter_pos shr_1 shr_m loc_of_shr_record round_nearest_even Zdigits2 orb].
    rewrite <- Hd. replace (e - 1 + 1) with e by lia.
    rewrite Hf', Z.sub_diag. cbn [shr shr_m].
    now rewrite Hle, xorb_false_r.
Qed.

Lemma div_one (x : float) : (x / 1)%float = x.
Proof.
  apply Prim2SF_inj. rewrite FloatAxioms.div_spec, Prim2SF_one.
  pose proof (Prim2SF_valid x) as Hv.
  destruct (Prim2SF x) as [s | s | | s m e]; try reflexivity.
  - now destruct s.
  - now destruct s.
  - apply SFdiv_one. exact Hv.
Qed.

Lemma is_finite_inv (x : float) :
  PrimFloat.is_finite x = true ->
  match Prim2SF x with
  | S754_zero _ | S754_finite _ _ _ => True
  | _ => False
  end.
Proof.
  unfold PrimFloat.is_finite, PrimFloat.is_nan, PrimFloat.is_infinity.
  rewrite !FloatAxioms.eqb_spec, FloatAxioms.abs_spec.
  change (Prim2SF infinity) with (S754_infinity false).
  destruct (Prim2SF x) as [s | s | | s m e]; cbn; try easy.
  now destruct s.
Qed.

Lemma sub_diag_finite (x : float) :
  PrimFloat.is_finite x = true -> (x - x)%float = 0%float.
Proof.
  intros H. apply is_finite_inv in H.
  apply Prim2SF_inj. rewrite FloatAxioms.sub_spec.
  change (Prim2SF 0) with (S754_zero false).
  destruct (Prim2SF x) as [s | s | | s m e]; try easy.
  - now destruct s.
  - unfold SF64sub, SFsub, shl_align.
    now rewrite Z.min_id, Z.sub_diag.
Qed.

Lemma nonzero_number_inv (x : float) :
  nonzero_number x = true ->
  match Prim2SF x with
  | S754_infinity _ | S754_finite _ _ _ => True
  | _ => False
  end.
Proof.
  unfold nonzero_number, PrimFloat.is_nan, PrimFloat.is_zero. rewrite !FloatAxioms.eqb_spec.
  change (Prim2SF zero) with (S754_zero false).
  destruct (Prim2SF x) as [s | s | | s m e]; cbn; try easy.
Qed.

Lemma neg_zero_div (x : float) :
  nonzero_number x = true ->
  (-0 / x)%float = 0%float \/ (-0 / x)%float = (-0)%float.
Proof.
  intros H. apply nonzero_number_inv in H.
  assert (Hs : Prim2SF (-0 / x)%float = S754_zero false \/
               Prim2SF (-0 / x)%float = S754_zero true).
  { rewrite FloatAxioms.div_spec. change (Prim2SF (-0)) with (S754_zero true).
    destruct (Prim2SF x) as [s | s | | s m e]; try easy; destruct s; cbn; auto. }
  destruct Hs as [Hs | Hs]; [ left | right ]; apply Prim2SF_inj; rewrite Hs; reflexivity.
Qed.

(** C5 in binary64 (the claim itself is settled over the reals above). For
    every libm whose exp returns 1 at +0 and at -0: a valid call whose two
    stations have the same finite height, with scale heights that are
    nonzero numbers, writes the three base delays unchanged, bit for bit. *)
Theorem equal_heights_identity_binary64 (libm_exp libm_cos libm_sin : float -> float)
    (BaseTrop BaseCoor UserCoor : array3 (binary64 libm_exp libm_cos libm_sin))
    (DOY : Z) (YorN : bool) (w : world (binary64 libm_exp libm_cos libm_sin)) :
  libm_exp 0%float = 1%float -> libm_exp (-0)%float = 1%float ->
  valid_DOY DOY -> in_region BaseCoor = true -> in_region UserCoor = true ->
  at2 UserCoor = at2 BaseCoor -> PrimFloat.is_finite (at2 BaseCoor) = true ->
  nonzero_number
    (fst (seasonal_parameters (D := binary64 libm_exp libm_cos libm_sin) DOY YorN))
    = true ->
  nonzero_number
    (snd (seasonal_parameters (D := binary64 libm_exp libm_cos libm_sin) DOY YorN))
    = true ->
  GTHC_HK BaseTrop BaseCoor UserCoor DOY YorN w = (0, World BaseTrop (stderr w)).
Proof.
  intros Hp Hn Hd Hb Hu Hh Hfin Ht Hw.
  rewrite (GTHC_HK_ok _ _ _ _ _ _ Hd Hb Hu).
  cbn [d_sub d_div d_neg d_exp binary64]. rewrite Hh, (sub_diag_finite _ Hfin).
  change (PrimFloat.opp 0) with (-0)%float.
  assert (Hz : forall b : float, nonzero_number b = true ->
               forall V : float, (V / libm_exp (-0 / b))%float = V).
  { intros b Hb' V.
    destruct (neg_zero_div b Hb') as [-> | ->]; rewrite ?Hp, ?Hn; apply div_one. }
  rewrite (Hz _ Ht), (Hz _ Hw),
    (Hz (beta_ZHD (D := binary64 libm_exp libm_cos libm_sin)) eq_refl).
  destruct BaseTrop; reflexivity.
Qed.

Lemma equal_heights_identity_binary64_witness :
  GTHC_HK (D := binary64 (fun _ => 1%float) (fun x => x) (fun x => x))
    demo_BaseTrop demo_BaseCoor (Array3 (d_lit 22.35) (d_lit 114.15) (d_of_int 50))
    150 false (World (Array3 0 0 0)%float [])
  = (0, World demo_BaseTrop []).
Proof.
  apply (equal_heights_identity_binary64 (fun _ => 1%float) (fun x => x) (fun x => x));
    try reflexivity.
  unfold valid_DOY; lia.
Defined.

End Binary64Identity.

(** * Further properties of the code *)

(** ** What a call depends on, for every interpretation of [double] *)

Section Dependencies.

Context {D : arith}.
Implicit Types (BaseTrop BaseCoor UserCoor : array3 D) (w : world D).

Lemma in_region_ext (Coor Coor' : array3 D) :
  at0 Coor = at0 Coor' -> at1 Coor = at1 Coor' -> in_region Coor = in_region Coor'.
Proof. unfold in_region. now intros -> ->. Qed.

(** Validation looks at DOY and at the two latitudes and longitudes only:
    two calls that agree on them return the same value and print the same
    line, whatever their delays, heights, seasonal flags and output arrays
    are. *)
Theorem validation_reads_DOY_and_position
    (BaseTrop BaseTrop' BaseCoor BaseCoor' UserCoor UserCoor' : array3 D)
    (DOY : Z) (YorN YorN' : bool) (w w' : world D) :
  at0 BaseCoor = at0 BaseCoor' -> at1 BaseCoor = at1 BaseCoor' ->
  at0 UserCoor = at0 UserCoor' -> at1 UserCoor = at1 UserCoor' ->
  stderr w = stderr w' ->
  fst (GTHC_HK BaseTrop BaseCoor UserCoor DOY YorN w)
  = fst (GTHC_HK BaseTrop' BaseCoor' UserCoor' DOY YorN' w') /\
  stderr (snd (GTHC_HK BaseTrop BaseCoor UserCoor DOY YorN w))
  = stderr (snd (GTHC_HK BaseTrop' BaseCoor' UserCoor' DOY YorN' w')).
Proof.
  intros Hb0 Hb1 Hu0 Hu1 He.
  pose proof (in_region_ext _ _ Hb0 Hb1) as Eb.
  pose proof (in_region_ext _ _ Hu0 Hu1) as Eu.
  destruct (GTHC_HK_cases BaseCoor UserCoor DOY) as [H | [[Hd H] | [Hd [Hb Hu]]]].
  - rewrite !(GTHC_HK_bad_DOY _ _ _ _ _ _ H). cbn. now rewrite He.
  - rewrite (GTHC_HK_bad_region BaseTrop _ _ _ YorN w Hd H).
    rewrite Eb, Eu in H.
    rewrite (GTHC_HK_bad_region BaseTrop' _ _ _ YorN' w' Hd H). cbn. now rewrite He.
  - rewrite (GTHC_HK_ok BaseTrop _ _ _ YorN w Hd Hb Hu).
    rewrite Eb in Hb. rewrite Eu in Hu.
    rewrite (GTHC_HK_ok BaseTrop' _ _ _ YorN' w' Hd Hb Hu). cbn. now rewrite He.
Qed.

(** Of the two stations a valid call uses the heights only, and it
    overwrites the whole output array: two valid calls with the same
    delays, heights, DOY and flag write the same three values, wherever
    in the region the stations are and whatever the array held. *)
Theorem output_reads_heights_only
    (BaseTrop BaseCoor BaseCoor' UserCoor UserCoor' : array3 D)
    (DOY : Z) (YorN : bool) (w w' : world D) :
  valid_DOY DOY ->
  in_region BaseCoor = true -> in_region UserCoor = true ->
  in_region BaseCoor' = true -> in_region UserCoor' = true ->
  at2 BaseCoor = at2 BaseCoor' -> at2 UserCoor = at2 UserCoor' ->
  UserTrop (snd (GTHC_HK BaseTrop BaseCoor UserCoor DOY YorN w))
  = UserTrop (snd (GTHC_HK BaseTrop BaseCoor' UserCoor' DOY YorN w')).
Proof.
  intros Hd Hb Hu Hb' Hu' Eb Eu.
  rewrite (GTHC_HK_ok _ _ _ _ _ _ Hd Hb Hu), (GTHC_HK_ok _ _ _ _ _ _ Hd Hb' Hu').
  cbn [snd UserTrop]. now rewrite Eb, Eu.
Qed.

(** The day of year enters through the seasonal sinusoids only: with the
    flag off two valid calls on different days give the same result, and
    the ZHD written never depends on the day or on the flag. *)
Theorem DOY_enters_through_seasonal_flag BaseTrop BaseCoor UserCoor
    (DOY DOY' : Z) (YorN YorN' : bool) w :
  valid_DOY DOY -> valid_DOY DOY' ->
  in_region BaseCoor = true -> in_region UserCoor = true ->
  GTHC_HK BaseTrop BaseCoor UserCoor DOY false w
  = GTHC_HK BaseTrop BaseCoor UserCoor DOY' false w /\
  at0 (UserTrop (snd (GTHC_HK BaseTrop BaseCoor UserCoor DOY YorN w)))
  = at0 (UserTrop (snd (GTHC_HK BaseTrop BaseCoor UserCoor DOY' YorN' w))).
Proof.
  intros Hd Hd' Hb Hu.
  rewrite !(GTHC_HK_ok _ _ _ DOY _ _ Hd Hb Hu), !(GTHC_HK_ok _ _ _ DOY' _ _ Hd' Hb Hu).
  split; reflexivity.
Qed.

End Dependencies.

Lemma validation_reads_DOY_and_position_witness :
  fst (GTHC_HK (D := Rarith) demo_BaseTrop (Array3 0 0 50)%R demo_UserCoor 150 true
         (World (Array3 1 2 3) [])%R)
  = fst (GTHC_HK (D := Rarith) (Array3 0 0 0)%R (Array3 0 0 9000)%R
           (Array3 22.35 114.15 (-5))%R 150 false (World (Array3 4 5 6) [])%R).
Proof.
  apply (validation_reads_DOY_and_position (D := Rarith)); reflexivity.
Defined.

Lemma output_reads_heights_only_witness :
  UserTrop (snd (GTHC_HK (D := Rarith) demo_BaseTrop demo_BaseCoor demo_UserCoor
                   150 true (World (Array3 1 2 3) [])%R))
  = UserTrop (snd (GTHC_HK (D := Rarith) demo_BaseTrop (Array3 22.1 114.5 50)%R
                     (Array3 22.6 113.8 200)%R 150 true
                     (World (Array3 4 5 6) ["earlier line"%string])%R)).
Proof.
  apply (output_reads_heights_only (D := Rarith)).
  - unfold valid_DOY; lia.
  - apply demo_BaseCoor_in_region.
  - apply demo_UserCoor_in_region.
  - apply in_region_iff; cbn; lra.
  - apply in_region_iff; cbn; lra.
  - reflexivity.
  - reflexivity.
Defined.

Lemma DOY_enters_through_seasonal_flag_witness :
  GTHC_HK (D := Rarith) demo_BaseTrop demo_BaseCoor demo_UserCoor 1 false
    (World (Array3 1 2 3) [])%R
  = GTHC_HK (D := Rarith) demo_BaseTrop demo_BaseCoor demo_UserCoor 366 false
      (World (Array3 1 2 3) [])%R.
Proof.
  apply (DOY_enters_through_seasonal_flag (D := Rarith) demo_BaseTrop demo_BaseCoor
           demo_UserCoor 1 366 false false (World (Array3 1 2 3) [])%R).
  - unfold valid_DOY; lia.
  - unfold valid_DOY; lia.
  - apply demo_BaseCoor_in_region.
  - apply demo_UserCoor_in_region.
Defined.

(** ** The correction as a map on delays, over the reals *)

Section RealAlgebra.

Local Open Scope R_scope.
Implicit Types (BaseTrop BaseCoor UserCoor : array3 Rarith) (w : world Rarith).

(* Dividing by exp(-d / beta) is multiplying by exp(d / beta). *)
Lemma scale_as_product (V beta d : R) : V / exp (- d / beta) = V * exp (d / beta).
Proof.
  replace (- d / beta) with (- (d / beta)) by (unfold Rdiv; ring).
  rewrite exp_Ropp. unfold Rdiv. now rewrite Rinv_inv.
Qed.










End RealAlgebra.

(** ** The seasonal sinusoids in time, over the reals *)

Section RealSeasons.

Local Open Scope R_scope.







(* exp between its two first-order bounds. *)
Lemma exp_bounds (x : R) : 0 < x < 1 -> 1 + x < exp x < 1 / (1 - x).
Proof.
  intros [H0 H1]. split.
  - apply exp_ineq1. lra.
  - pose proof (exp_ineq1 (- x) ltac:(lra)) as H.
    rewrite exp_Ropp in H.
    pose proof (exp_pos x) as Hp.
    apply Rmult_lt_reg_r with (r := 1 - x); [ lra | ].
    replace (1 / (1 - x) * (1 - x)) with 1 by (field; lra).
    apply Rmult_lt_reg_r with (r := / exp x); [ now apply Rinv_0_lt_compat | ].
    replace (exp x * (1 - x) * / exp x) with (1 - x) by (field; lra).
    lra.
Qed.

(* The factor exp(d / beta) for a scale height between lo and hi. *)
Lemma factor_bounds (beta lo hi d : R) :
  0 < lo <= beta -> beta <= hi -> 0 < d < lo ->
  1 + d / hi < exp (d / beta) < 1 / (1 - d / lo).
Proof.
  intros [Hlo Hb] Hhi [Hd Hdl].
  assert (Hx : d / hi <= d / beta <= d / lo).
  { unfold Rdiv. split; apply Rmult_le_compat_l; try lra;
      apply Rinv_le_contravar; lra. }
  assert (Hl1 : d / lo < 1).
  { apply Rmult_lt_reg_r with (r := lo); [ lra | ].
    replace (d / lo * lo) with d by (field; lra). lra. }
  assert (Hx0 : 0 < d / beta) by (apply Rdiv_lt_0_compat; lra).
  destruct (exp_bounds (d / beta) ltac:(lra)) as [E1 E2].
  split; [ lra | ].
  eapply Rlt_le_trans; [ exact E2 | ].
  unfold Rdiv at 1 3. apply Rmult_le_compat_l; [ lra | ].
  apply Rinv_le_contravar; lra.
Qed.

End RealSeasons.

(** ** How large the correction is, over the reals *)

Section RealEnvelope.

Local Open Scope R_scope.
Implicit Types (BaseTrop BaseCoor UserCoor : array3 Rarith) (w : world Rarith).

(* Both scale heights stay in a fixed range, seasonal or not. *)
Lemma seasonal_parameters_range (DOY : Z) (YorN : bool) :
  6883 <= fst (seasonal_parameters (D := Rarith) DOY YorN) <= 7563 /\
  3026 <= snd (seasonal_parameters (D := Rarith) DOY YorN) <= 3481.
Proof.
  destruct YorN; cbn [seasonal_parameters fst snd].
  - pose proof (func_sinZTD_bounds (IZR DOY / 365.25)) as Ht.
    pose proof (func_sinZWD_bounds (IZR DOY / 365.25)) as Hw.
    cbn [d_of_int d_div d_lit Rarith]. lra.
  - cbn. lra.
Qed.

Lemma scale_envelope (V beta lo hi d : R) :
  0 < lo <= beta -> beta <= hi -> 0 < d < lo -> 0 < V ->
  V * (1 + d / hi) < V / exp (- d / beta) < V / (1 - d / lo).
Proof.
  intros Hlo Hhi Hd HV.
  destruct (factor_bounds beta lo hi d Hlo Hhi Hd) as [F1 F2].
  rewrite scale_as_product. split.
  - apply Rmult_lt_compat_l; assumption.
  - unfold Rdiv at 2. apply Rmult_lt_compat_l; [ assumption | ].
    unfold Rdiv in F2 at 2. lra.
Qed.



(* The demonstration call, for every DOY and both flags. *)
Lemma correction_envelope_bounds_demo (w : world Rarith) :
  let out := UserTrop (snd (GTHC_HK (D := Rarith) demo_BaseTrop demo_BaseCoor
                              demo_UserCoor 150 true w)) in
  2239 < at0 out < 2240 /\ 156 < at1 out < 158 /\ 2396 < at2 out < 2403.
Proof.
  intros out. subst out.
  rewrite (GTHC_HK_ok (D := Rarith) demo_BaseTrop demo_BaseCoor demo_UserCoor
             150 true w ltac:(unfold valid_DOY; lia) demo_BaseCoor_in_region
             demo_UserCoor_in_region).
  cbn [snd UserTrop at0 at1 at2 d_sub d_div d_neg d_exp d_of_int d_lit Rarith
       demo_BaseTrop demo_BaseCoor demo_UserCoor].
  destruct (seasonal_parameters_range 150 true) as [Ht Hw].
  assert (Hz : beta_ZHD (D := Rarith) = 8431.2) by reflexivity.
  pose proof (scale_envelope 2200 (beta_ZHD (D := Rarith)) 8431.2 8431.2 (200 - 50)
                ltac:(lra) ltac:(lra) ltac:(lra) ltac:(lra)) as H0.
  pose proof (scale_envelope 150 (snd (seasonal_parameters (D := Rarith) 150 true))
                3026 3481 (200 - 50) ltac:(lra) ltac:(lra) ltac:(lra) ltac:(lra)) as H1.
  pose proof (scale_envelope 2350 (fst (seasonal_parameters (D := Rarith) 150 true))
                6883 7563 (200 - 50) ltac:(lra) ltac:(lra) ltac:(lra) ltac:(lra)) as H2.
  lra.
Qed.

End RealEnvelope.

(** ** Witnesses for the composition laws *)





(** ** The program [main] *)

Lemma main_when_in_region {D : arith} (printf_2f : D -> string) (w : world D)
    (stdout : list string) :
  in_region (D := D) demo_BaseCoor = true -> in_region (D := D) demo_UserCoor = true ->
  main printf_2f w stdout
  = (0%Z, snd (demo_call w),
     stdout ++
     [("Corrected tropospheric delays:" ++ LF)%string;
      ("ZHD = " ++ printf_2f (at0 (UserTrop (snd (demo_call w)))) ++ " mm" ++ LF)%string;
      ("ZWD = " ++ printf_2f (at1 (UserTrop (snd (demo_call w)))) ++ " mm" ++ LF)%string;
      ("ZTD = " ++ printf_2f (at2 (UserTrop (snd (demo_call w)))) ++ " mm" ++ LF)%string]).
Proof.
  intros Hb Hu. unfold main, demo_call.
  pose proof (GTHC_HK_ok demo_BaseTrop demo_BaseCoor demo_UserCoor 150 true w
                ltac:(unfold valid_DOY; lia) Hb Hu) as H.
  cbv zeta in H. unfold demo_BaseTrop, demo_BaseCoor, demo_UserCoor in *.
  rewrite H. reflexivity.
Qed.

(** [main] never takes an error path. Over the reals it exits with status
    0, prints nothing on the error stream and four lines on the standard
    output, and the delays it prints are between 2239 and 2240 (ZHD),
    156 and 158 (ZWD), 2396 and 2403 (ZTD). In binary64 it exits with
    status 0 and prints the four lines whatever libm and printf are. *)
Theorem main_exit_status :
  (forall (printf_2f : R -> string) (w : world Rarith) (stdout : list string),
     let r := main (D := Rarith) printf_2f w stdout in
     let out := UserTrop (snd (fst r)) in
     fst (fst r) = 0%Z /\ stderr (snd (fst r)) = stderr w /\
     snd r = stdout ++
             [("Corrected tropospheric delays:" ++ LF)%string;
              ("ZHD = " ++ printf_2f (at0 out) ++ " mm" ++ LF)%string;
              ("ZWD = " ++ printf_2f (at1 out) ++ " mm" ++ LF)%string;
              ("ZTD = " ++ printf_2f (at2 out) ++ " mm" ++ LF)%string] /\
     (2239 < at0 out < 2240 /\ 156 < at1 out < 158 /\ 2396 < at2 out < 2403)%R) /\
  (forall (libm_exp libm_cos libm_sin : float -> float) (printf_2f : float -> string)
          (w : world (binary64 libm_exp libm_cos libm_sin)) (stdout : list string),
     let r := main (D := binary64 libm_exp libm_cos libm_sin) printf_2f w stdout in
     fst (fst r) = 0%Z /\ stderr (snd (fst r)) = stderr w /\
     List.length (snd r) = (List.length stdout + 4)%nat).
Proof.
  split.
  - intros printf_2f w stdout r out. subst out r.
    rewrite (main_when_in_region (D := Rarith) printf_2f w stdout
               demo_BaseCoor_in_region demo_UserCoor_in_region).
    cbn [fst snd].
    pose proof (GTHC_HK_ok (D := Rarith) demo_BaseTrop demo_BaseCoor demo_UserCoor
                  150 true w ltac:(unfold valid_DOY; lia) demo_BaseCoor_in_region
                  demo_UserCoor_in_region) as Hcall.
    pose proof (correction_envelope_bounds_demo w) as Hnum.
    unfold demo_call. rewrite Hcall in *. cbn [snd stderr UserTrop] in *.
    repeat split; try reflexivity; apply Hnum.
  - intros libm_exp libm_cos libm_sin printf_2f w stdout r. subst r.
    rewrite (main_when_in_region (D := binary64 libm_exp libm_cos libm_sin)
               printf_2f w stdout eq_refl eq_refl).
    cbn [fst snd]. unfold demo_call.
    rewrite (GTHC_HK_ok (D := binary64 libm_exp libm_cos libm_sin)
               demo_BaseTrop demo_BaseCoor demo_UserCoor 150 true w
               ltac:(unfold valid_DOY; lia) eq_refl eq_refl).
    cbn [snd stderr]. rewrite length_app. repeat split.
Qed.

(** ** Numbers that are not finite, in binary64 *)

Lemma in_region_binary64_finite (libm_exp libm_cos libm_sin : float -> float)
    (Coor : array3 (binary64 libm_exp libm_cos libm_sin)) :
  in_region Coor = true ->
  PrimFloat.is_finite (at0 Coor) = true /\ PrimFloat.is_finite (at1 Coor) = true.
Proof.
  unfold in_region, is_in_hongkong, HK_LAT_MIN, HK_LAT_MAX, HK_LON_MIN, HK_LON_MAX.
  cbn [d_le d_lit binary64].
  rewrite andb_true_iff, !between_B2R by reflexivity. tauto.
Qed.

(** In binary64, whatever libm is: a call with DOY in 1..366 in which a
    latitude or a longitude, of either station, is NaN or infinite fails
    with OutOfRegion and leaves the output array as it was; such a number
    never reaches the arithmetic. *)
Theorem nonfinite_position_is_OutOfRegion (libm_exp libm_cos libm_sin : float -> float)
    (BaseTrop BaseCoor UserCoor : array3 (binary64 libm_exp libm_cos libm_sin))
    (DOY : Z) (YorN : bool) (w : world (binary64 libm_exp libm_cos libm_sin)) :
  valid_DOY DOY ->
  PrimFloat.is_finite (at0 BaseCoor) && PrimFloat.is_finite (at1 BaseCoor) &&
  PrimFloat.is_finite (at0 UserCoor) && PrimFloat.is_finite (at1 UserCoor) = false ->
  fails_with OutOfRegion w (GTHC_HK BaseTrop BaseCoor UserCoor DOY YorN w) /\
  UserTrop (snd (GTHC_HK BaseTrop BaseCoor UserCoor DOY YorN w)) = UserTrop w.
Proof.
  intros Hd Hn.
  assert (Hr : in_region BaseCoor = false \/ in_region UserCoor = false).
  { destruct (in_region BaseCoor) eqn:Eb; [ | now left ].
    destruct (in_region UserCoor) eqn:Eu; [ | now right ].
    apply in_region_binary64_finite in Eb, Eu.
    destruct Eb as [E0 E1], Eu as [E2 E3].
    rewrite E0, E1, E2, E3 in Hn. discriminate Hn. }
  rewrite (GTHC_HK_bad_region _ _ _ _ _ _ Hd Hr). repeat split.
Qed.

Lemma nonfinite_position_is_OutOfRegion_witness :
  fails_with OutOfRegion (World (Array3 1 2 3)%float [])
    (GTHC_HK (D := binary64 (fun _ => 1%float) (fun x => x) (fun x => x))
       demo_BaseTrop demo_BaseCoor
       (Array3 nan (float_of_decimal 114.15) (float_of_Z 200))
       150 true (World (Array3 1 2 3)%float [])).
Proof.
  apply (nonfinite_position_is_OutOfRegion (fun _ => 1%float) (fun x => x) (fun x => x)).
  - unfold valid_DOY; lia.
  - reflexivity.
Defined.

(** ** The sinusoids for arbitrary coefficients, over the reals *)

Section RealAmplitude.

Local Open Scope R_scope.



End RealAmplitude.
